(** * ZeroTier One: the burstable rate limiter (node/RateLimiter.hpp)

    A shallow embedding of [class RateLimiter] and of its nested
    [struct Limit], with the properties of its balance accounting.

    Numbers.  The C++ fields and arguments are [double]s.  The class is
    embedded twice.  The embedding at top level takes them as exact
    rationals [Q]: [+], [-], [*], [>=], [fmin] and [fmax] without
    rounding, no infinities, no NaN.  Module [Binary64] has the same
    methods on IEEE binary64 numbers, with the rounding of every
    operation; the two agree on the worked scenarios and part where the
    sum of a refresh or the difference of a debit is not a binary64
    number.  The theorems on the exact embedding are about the order of
    the numbers, the two clamps and the expressions the code itself
    stores; a statement about the exact size of an accrual is settled on
    [Binary64].  Equality of rationals is [==] ([Qeq]) unless a value is
    stored unchanged, where it is Leibniz equality.

    Clock.  [Utils::nowf()] lives in Utils.hpp; each method reads it
    exactly once, and the value it returns at that call is the argument
    [now] of the embedded method.

    State.  A method of the class is a computation in a small state
    monad over the two private fields of the object. *)

From Stdlib Require Import QArith Qminmax Lqa List Bool.
From Stdlib Require Floats.PrimFloat.
Import ListNotations.

Local Open Scope Q_scope.

(** ** Data model *)

(** [struct RateLimiter::Limit]. *)
Record Limit : Type := mkLimit {
  bytesPerSecond : Q;  (* rate of balance accrual *)
  maxBalance : Q;      (* should be > 0.0 *)
  minBalance : Q       (* should be <= 0.0 *)
}.

(** The private fields [_lastTime] and [_balance]. *)
Record RateLimiter : Type := mkRateLimiter {
  _lastTime : Q;
  _balance : Q
}.

(** ** Methods as state computations *)

Module Method.

(** A method body: from the object before to a result and the object
    after. *)
Definition t (A : Type) : Type := RateLimiter -> A * RateLimiter.

Definition ret {A} (a : A) : t A := fun s => (a, s).

Definition bind {A B} (c : t A) (k : A -> t B) : t B :=
  fun s => let (a, s') := c s in k a s'.

Definition get_lastTime : t Q := fun s => (_lastTime s, s).
Definition get_balance : t Q := fun s => (_balance s, s).

Definition set_lastTime (v : Q) : t unit :=
  fun s => (tt, mkRateLimiter v (_balance s)).
Definition set_balance (v : Q) : t unit :=
  fun s => (tt, mkRateLimiter (_lastTime s) v).

(** The returned value and the object left behind. *)
Definition result {A} (c : t A) (s : RateLimiter) : A := fst (c s).
Definition after {A} (c : t A) (s : RateLimiter) : RateLimiter := snd (c s).

End Method.

Declare Scope method_scope.
Delimit Scope method_scope with method.
Notation "x <- c ;; k" := (Method.bind c (fun x => k))
  (at level 61, c at next level, right associativity) : method_scope.
Notation "c ;; k" := (Method.bind c (fun _ => k))
  (at level 61, right associativity) : method_scope.

Import Method.

(** [a >= b] on doubles, as a boolean. *)
Definition geb (a b : Q) : bool := Qle_bool b a.

(** [void init(double preload)]:
    [_lastTime = Utils::nowf(); _balance = preload;] *)
Definition init (now : Q) (preload : Q) : Method.t unit :=
  (set_lastTime now ;;
   set_balance preload)%method.

(** [double updateBalance(const Limit &lim)]:
    [double lt = _lastTime;
     double now = _lastTime = Utils::nowf();
     return (_balance = fmin(lim.maxBalance,
                             _balance + (lim.bytesPerSecond * (now - lt))));] *)
Definition updateBalance (now : Q) (lim : Limit) : Method.t Q :=
  (lt <- get_lastTime ;;
   set_lastTime now ;;
   b <- get_balance ;;
   let nb := Qmin (maxBalance lim) (b + bytesPerSecond lim * (now - lt)) in
   set_balance nb ;;
   ret nb)%method.

(** [bool gate(const Limit &lim, double bytes)]:
    [bool allow = (updateBalance(lim) >= bytes);
     _balance = fmax(lim.minBalance, _balance - bytes);
     return allow;] *)
Definition gate (now : Q) (lim : Limit) (bytes : Q) : Method.t bool :=
  (ub <- updateBalance now lim ;;
   let allow := geb ub bytes in
   b <- get_balance ;;
   set_balance (Qmax (minBalance lim) (b - bytes)) ;;
   ret allow)%method.

(** The constructor [RateLimiter(double preload)] calls [init(preload)]
    on the fresh object, whose fields hold whatever [fresh] holds. *)
Definition RateLimiter_preload (now preload : Q) (fresh : RateLimiter)
  : RateLimiter :=
  after (init now preload) fresh.

(** ** Sequences of calls on one instance *)

(** One public call on the object, with its arguments. *)
Inductive call : Type :=
| Init (preload : Q)
| UpdateBalance (lim : Limit)
| Gate (lim : Limit) (bytes : Q).

(** What a call hands back to its caller. *)
Inductive value : Type :=
| VVoid
| VDouble (d : Q)
| VBool (b : bool).

(** Perform one call; [now] is the clock reading taken by that call. *)
Definition step (now : Q) (c : call) : Method.t value :=
  match c with
  | Init preload => (init now preload ;; ret VVoid)%method
  | UpdateBalance lim => (d <- updateBalance now lim ;; ret (VDouble d))%method
  | Gate lim bytes => (b <- gate now lim bytes ;; ret (VBool b))%method
  end.

(** Perform the calls in order, each paired with its clock reading; the
    list gives, for each call, its returned value and the object after
    it. *)
Fixpoint run (cs : list (Q * call)) (s : RateLimiter)
  : list (value * RateLimiter) :=
  match cs with
  | [] => []
  | (now, c) :: cs' =>
      let r := step now c s in
      r :: run cs' (snd r)
  end.

(** The stored [_lastTime] / [_balance] after each call of a run. *)
Definition lastTimes (tr : list (value * RateLimiter)) : list Q :=
  map (fun r => _lastTime (snd r)) tr.
Definition balances (tr : list (value * RateLimiter)) : list Q :=
  map (fun r => _balance (snd r)) tr.

(** Each element is [<=] the next one. *)
Fixpoint nondecreasing (l : list Q) : Prop :=
  match l with
  | [] => True
  | x :: l' =>
      match l' with
      | [] => True
      | y :: _ => x <= y /\ nondecreasing l'
      end
  end.

(** The calls of a run that keep to the documented use of one [Limit]:
    a preload inside the limit's range, a transfer size that is not
    negative. *)
Definition call_in_range (lim : Limit) (c : call) : Prop :=
  match c with
  | Init preload => minBalance lim <= preload /\ preload <= maxBalance lim
  | UpdateBalance _ => False
  | Gate l bytes => l = lim /\ 0 <= bytes
  end.

(** The limit and the objects of the worked scenarios. *)
Definition scenario_limit : Limit := mkLimit 100 1000 (-500).
Definition inverted_limit : Limit := mkLimit 100 10 20.
Definition zeroed : RateLimiter := mkRateLimiter 0 0.

(** The calls of the worked scenarios, each with its clock reading. *)
Definition scenario_calls : list (Q * call) :=
  [(0, Init 0); (0, Gate scenario_limit 50);
   (1, Gate scenario_limit 30); (21, Gate scenario_limit 999)].

(** The same with a bare refresh in the middle. *)
Definition mixed_calls : list (Q * call) :=
  [(0, Init 0); (0, Gate scenario_limit 50);
   (1, UpdateBalance scenario_limit); (21, Gate scenario_limit 999)].

(** The calls of a run in the documented use of one [Limit]: a preload
    inside the limit's range, refreshes, gates of a transfer size that is
    not negative. *)
Definition call_in_use (lim : Limit) (c : call) : Prop :=
  match c with
  | Init preload => minBalance lim <= preload /\ preload <= maxBalance lim
  | UpdateBalance l => l = lim
  | Gate l bytes => l = lim /\ 0 <= bytes
  end.

(** ** The same class on IEEE binary64 *)

Module Binary64.

Import PrimFloat.
Local Open Scope float_scope.

Record Limit : Type := mkLimit {
  bytesPerSecond : float;
  maxBalance : float;
  minBalance : float
}.

Record RateLimiter : Type := mkRateLimiter {
  _lastTime : float;
  _balance : float
}.

(** [fmin] and [fmax] of <math.h>: a NaN argument gives the other
    argument; of two equal arguments the first is returned. *)
Definition fmin (x y : float) : float :=
  if is_nan x then y else if is_nan y then x else if y <? x then y else x.
Definition fmax (x y : float) : float :=
  if is_nan x then y else if is_nan y then x else if x <? y then y else x.

(** [_lastTime = Utils::nowf(); _balance = preload;] *)
Definition init (now preload : float) (s : RateLimiter)
  : unit * RateLimiter :=
  let s := mkRateLimiter now (_balance s) in
  let s := mkRateLimiter (_lastTime s) preload in
  (tt, s).

(** [double lt = _lastTime;
     double now = _lastTime = Utils::nowf();
     return (_balance = fmin(lim.maxBalance,
                             _balance + (lim.bytesPerSecond * (now - lt))));] *)
Definition updateBalance (now : float) (lim : Limit) (s : RateLimiter)
  : float * RateLimiter :=
  let lt := _lastTime s in
  let s := mkRateLimiter now (_balance s) in
  let nb := fmin (maxBalance lim)
                 (_balance s + bytesPerSecond lim * (now - lt)) in
  let s := mkRateLimiter (_lastTime s) nb in
  (nb, s).

(** [bool allow = (updateBalance(lim) >= bytes);
     _balance = fmax(lim.minBalance, _balance - bytes);
     return allow;] *)
Definition gate (now : float) (lim : Limit) (bytes : float) (s : RateLimiter)
  : bool * RateLimiter :=
  let (ub, s) := updateBalance now lim s in
  let allow := bytes <=? ub in
  let s := mkRateLimiter (_lastTime s)
                         (fmax (minBalance lim) (_balance s - bytes)) in
  (allow, s).

(** The limit of the worked scenarios, and a limit of one byte per
    second with a ceiling of [1e17]. *)
Definition scenario_limit : Limit := mkLimit 100 1000 (-500).
Definition slow_limit : Limit := mkLimit 1 1e17 (-500).

(** An object last updated at 0 with a balance of [2^53], the first
    binary64 number whose successor is 2 away; one with [2^53 + 2]. *)
Definition huge : RateLimiter := mkRateLimiter 0 9007199254740992.
Definition huge2 : RateLimiter := mkRateLimiter 0 9007199254740994.

End Binary64.

(** Closed comparisons of rationals, settled by evaluation. *)
Ltac qcompute :=
  vm_compute;
  first [ reflexivity
        | discriminate
        | let H := fresh in intro H; apply H; reflexivity
        | let H := fresh in intro H; discriminate H ].

(** ** Equations of the methods *)

Lemma init_eq (now preload : Q) (s : RateLimiter) :
  init now preload s = (tt, mkRateLimiter now preload).
Proof. reflexivity. Qed.

Lemma updateBalance_eq (now : Q) (lim : Limit) (s : RateLimiter) :
  let nb := Qmin (maxBalance lim)
                 (_balance s + bytesPerSecond lim * (now - _lastTime s)) in
  updateBalance now lim s = (nb, mkRateLimiter now nb).
Proof. reflexivity. Qed.

Lemma gate_eq (now : Q) (lim : Limit) (bytes : Q) (s : RateLimiter) :
  let ub := result (updateBalance now lim) s in
  gate now lim bytes s =
    (geb ub bytes, mkRateLimiter now (Qmax (minBalance lim) (ub - bytes))).
Proof. reflexivity. Qed.

Lemma geb_true_iff (a b : Q) : geb a b = true <-> b <= a.
Proof. unfold geb. apply Qle_bool_iff. Qed.

Lemma geb_false_iff (a b : Q) : geb a b = false <-> a < b.
Proof.
  rewrite <- not_true_iff_false, geb_true_iff.
  split; intro H; [apply Qnot_le_lt | apply Qlt_not_le]; exact H.
Qed.

Lemma RateLimiter_preload_eq (now preload : Q) (fresh : RateLimiter) :
  RateLimiter_preload now preload fresh = mkRateLimiter now preload.
Proof. reflexivity. Qed.

(** ** Bounds produced by the two clamps *)

Lemma updateBalance_le_max (now : Q) (lim : Limit) (s : RateLimiter) :
  result (updateBalance now lim) s <= maxBalance lim.
Proof. cbn. apply Q.le_min_l. Qed.

Lemma updateBalance_balance (now : Q) (lim : Limit) (s : RateLimiter) :
  _balance (after (updateBalance now lim) s) = result (updateBalance now lim) s.
Proof. reflexivity. Qed.

Lemma gate_ge_min (now : Q) (lim : Limit) (bytes : Q) (s : RateLimiter) :
  minBalance lim <= _balance (after (gate now lim bytes) s).
Proof. cbn. apply Q.le_max_l. Qed.

Lemma gate_le_max (now : Q) (lim : Limit) (bytes : Q) (s : RateLimiter) :
  minBalance lim <= maxBalance lim -> 0 <= bytes ->
  _balance (after (gate now lim bytes) s) <= maxBalance lim.
Proof.
  intros Hc Hb.
  pose proof (updateBalance_le_max now lim s) as Hu.
  unfold after. rewrite gate_eq. cbn [snd _balance].
  apply Q.max_lub; [exact Hc | lra].
Qed.

(** A clamp at the floor returns the floor itself when the other
    argument does not exceed it. *)
Lemma Qmax_floor (m x : Q) : x <= m -> Qmax m x = m.
Proof.
  intro H. unfold Qmax, GenericMinMax.gmax.
  destruct (Qcompare_spec m x); try reflexivity; lra.
Qed.


(** The stored clock after each call is the reading of that call. *)
Lemma step_lastTime (now : Q) (c : call) (s : RateLimiter) :
  _lastTime (snd (step now c s)) = now.
Proof. destruct c; reflexivity. Qed.

Lemma run_lastTimes (cs : list (Q * call)) (s : RateLimiter) :
  lastTimes (run cs s) = map fst cs.
Proof.
  revert s. induction cs as [|[now c] cs IH]; intro s; [reflexivity|].
  cbn [run lastTimes map fst]. rewrite step_lastTime. f_equal. apply IH.
Qed.

(** ** The worked scenarios of the limit [{100, 1000, -500}] *)

(** [init(0)], then at once [gate(limit, 50)]: refused, balance -50. *)
Example scenario_first_gate :
  gate 0 scenario_limit 50 (after (init 0 0) zeroed) =
    (false, mkRateLimiter 0 (-50)).
Proof. reflexivity. Qed.

(** One second later [gate(limit, 30)]: admitted, balance 20. *)
Example scenario_after_one_second :
  gate 1 scenario_limit 30 (mkRateLimiter 0 (-50)) =
    (true, mkRateLimiter 1 20).
Proof. reflexivity. Qed.

(** Twenty seconds later [gate(limit, 999)]: the refresh is clamped at
    1000, the transfer is admitted, balance 1. *)
Example scenario_after_idle :
  updateBalance 21 scenario_limit (mkRateLimiter 1 20) =
    (1000, mkRateLimiter 21 1000) /\
  gate 21 scenario_limit 999 (mkRateLimiter 1 20) =
    (true, mkRateLimiter 21 1).
Proof. split; reflexivity. Qed.

(** ** Single calls *)

(** C5. [init(x)] on any object, initialised or not, stores exactly [x]
    as the balance, with no clamp against any limit (it takes none), and
    the clock reading of the call as the last update time; nothing of the
    prior state survives, and a later [init] resets the object in the same
    way. *)
Theorem init_overrides :
  forall (now x : Q) (s : RateLimiter),
    _balance (after (init now x) s) = x /\
    _lastTime (after (init now x) s) = now /\
    (forall s' : RateLimiter, after (init now x) s' = after (init now x) s) /\
    (forall now' x' : Q,
        after (init now' x') (after (init now x) s) = mkRateLimiter now' x').
Proof.
  intros now x s. repeat split.
Qed.

(** C2. [gate] returns true exactly when the balance returned by
    [updateBalance], before the debit, is at least [bytes]. *)
Theorem gate_admission :
  forall (now : Q) (lim : Limit) (bytes : Q) (s : RateLimiter),
    result (gate now lim bytes) s = true <->
    bytes <= result (updateBalance now lim) s.
Proof.
  intros now lim bytes s. unfold result at 1. rewrite gate_eq.
  cbn [fst]. apply geb_true_iff.
Qed.

(** C3. After [gate(lim, bytes)] the stored balance is
    [max(lim.minBalance, refreshed - bytes)], where [refreshed] is the
    balance [updateBalance] returned; the same holds for either verdict. *)
Theorem gate_debit_always :
  forall (now : Q) (lim : Limit) (bytes : Q) (s : RateLimiter) (verdict : bool),
    result (gate now lim bytes) s = verdict ->
    _balance (after (gate now lim bytes) s) =
      Qmax (minBalance lim) (result (updateBalance now lim) s - bytes).
Proof.
  intros now lim bytes s verdict _. reflexivity.
Qed.

(** C4 (as the code has it). [updateBalance(lim)] stores the clock
    reading as the last update time, stores
    [min(lim.maxBalance, balance + lim.bytesPerSecond * dt)] as the
    balance, where [dt] is the reading minus the old last update time,
    and returns that balance; so for [dt >= 0] and a rate that is not
    negative, a balance within the ceiling does not decrease and stays
    within the ceiling, and a later reading gives a balance at least as
    large. *)
Theorem updateBalance_accrual :
  forall (now : Q) (lim : Limit) (s : RateLimiter),
    let dt := now - _lastTime s in
    let s' := after (updateBalance now lim) s in
    _lastTime s' = now /\
    _balance s' = Qmin (maxBalance lim) (_balance s + bytesPerSecond lim * dt) /\
    result (updateBalance now lim) s = _balance s' /\
    (0 <= dt -> 0 <= bytesPerSecond lim ->
     (_balance s <= maxBalance lim ->
      _balance s <= _balance s' /\ _balance s' <= maxBalance lim) /\
     (forall later : Q,
         now <= later ->
         _balance s' <= _balance (after (updateBalance later lim) s))).
Proof.
  intros now lim s dt s'. do 3 (split; [reflexivity|]).
  intros Hdt Hr. subst s' dt. cbn. split.
  - intro Hb.
    assert (Ha : 0 <= bytesPerSecond lim * (now - _lastTime s))
      by (apply Qmult_le_0_compat; assumption).
    split; [apply Q.min_glb; lra | apply Q.le_min_l].
  - intros later Hlater.
    assert (Ha : 0 <= bytesPerSecond lim * (later - now))
      by (apply Qmult_le_0_compat; lra).
    apply Q.min_le_compat_l. lra.
Qed.

(** C9. One [gate] call establishes the debt floor from any prior state:
    the balance after it is at least [lim.minBalance]; with [bytes = 0],
    a refreshed balance below the floor is raised to exactly the floor. *)
Theorem gate_establishes_floor :
  forall (now : Q) (lim : Limit) (s : RateLimiter),
    (forall bytes : Q,
        minBalance lim <= _balance (after (gate now lim bytes) s)) /\
    (result (updateBalance now lim) s < minBalance lim ->
     _balance (after (gate now lim 0) s) = minBalance lim).
Proof.
  intros now lim s. split.
  - intro bytes. apply gate_ge_min.
  - intro Hlow. unfold after. rewrite gate_eq. cbn [snd _balance].
    apply Qmax_floor. lra.
Qed.


(** C6 (as the code has it). With a limit whose [maxBalance] is not
    strictly greater than its [minBalance], the balance after every
    [gate] call is at least [lim.minBalance], hence strictly above
    [lim.maxBalance] whenever [maxBalance < minBalance]; for
    [bytes >= 0] it is exactly [lim.minBalance]. *)
Theorem gate_inverted_limit :
  forall (now : Q) (lim : Limit) (bytes : Q) (s : RateLimiter),
    maxBalance lim <= minBalance lim ->
    let b' := _balance (after (gate now lim bytes) s) in
    minBalance lim <= b' /\
    (maxBalance lim < minBalance lim -> maxBalance lim < b') /\
    (0 <= bytes -> b' = minBalance lim).
Proof.
  intros now lim bytes s Hinv b'.
  pose proof (gate_ge_min now lim bytes s) as Hfloor. fold b' in Hfloor.
  split; [exact Hfloor|]. split.
  - intro Hlt. lra.
  - intro Hb. subst b'. unfold after. rewrite gate_eq. cbn [snd _balance].
    apply Qmax_floor.
    pose proof (updateBalance_le_max now lim s). lra.
Qed.

(** ** Sequences of calls *)

(** Every call kept in range leaves the balance inside the limit's
    range, whatever the object held before the call. *)
Lemma step_in_range (lim : Limit) (now : Q) (c : call) (s : RateLimiter) :
  minBalance lim <= maxBalance lim ->
  call_in_range lim c ->
  minBalance lim <= _balance (snd (step now c s)) /\
  _balance (snd (step now c s)) <= maxBalance lim.
Proof.
  intros Hc Hr. destruct c as [preload | l | l bytes]; cbn [call_in_range] in Hr.
  - exact Hr.
  - contradiction.
  - destruct Hr as [-> Hb]. split.
    + apply (gate_ge_min now lim bytes s).
    + apply (gate_le_max now lim bytes s Hc Hb).
Qed.

(** A [gate] for more than the ceiling, so far above it that the debit
    reaches the floor, is refused and leaves the balance at the floor,
    whatever the clock reads. *)
Lemma gate_overdraw (now : Q) (lim : Limit) (bytes : Q) (s : RateLimiter) :
  maxBalance lim < bytes ->
  maxBalance lim - bytes <= minBalance lim ->
  gate now lim bytes s = (false, mkRateLimiter now (minBalance lim)).
Proof.
  intros Hbig Hfloor. rewrite gate_eq.
  pose proof (updateBalance_le_max now lim s) as Hu.
  cbv zeta. f_equal.
  - apply geb_false_iff. lra.
  - f_equal. apply Qmax_floor. lra.
Qed.

(** C1 (as the code has it). Against a fixed [Limit{r, M, m}] with
    [r >= 0] and [m <= 0 <= M], for every sequence of [init] and [gate]
    calls in which each [init] preload lies in [[m, M]] and each [gate]
    has [bytes >= 0], the balance after every call satisfies
    [m <= balance <= M]. *)
Theorem balance_bounds_in_range :
  forall (r M m : Q) (cs : list (Q * call)) (s : RateLimiter),
    0 <= r -> m <= 0 -> 0 <= M ->
    Forall (fun nc => call_in_range (mkLimit r M m) (snd nc)) cs ->
    Forall (fun b => m <= b /\ b <= M) (balances (run cs s)).
Proof.
  intros r M m cs s Hr Hm HM Hcs. revert s.
  induction Hcs as [|[now c] cs Hc _ IH]; intro s; cbn [run balances map].
  - constructor.
  - constructor; [|apply IH].
    apply (step_in_range (mkLimit r M m) now c s); [cbn; lra | exact Hc].
Qed.

(** C7. With [Limit{100, 1000, -500}] and a starting balance of at most
    1000, [gate(limit, 10000)] called any number of times at one and the
    same clock reading (no time elapses between the calls) returns false
    at every call, and the balance is exactly -500 after the first call
    and after every later one. *)
Theorem tight_loop_pins_floor :
  forall (n : nat) (t : Q) (s : RateLimiter),
    _balance s <= 1000 ->
    Forall (fun r => fst r = VBool false /\ _balance (snd r) = -500)
           (run (repeat (t, Gate scenario_limit 10000) n) s).
Proof.
  intros n t s _. revert s.
  induction n as [|n IH]; intro s; cbn [repeat run step]; constructor.
  - unfold bind, ret. rewrite gate_overdraw by (cbn; lra).
    split; reflexivity.
  - apply IH.
Qed.

(** C8. Over any sequence of [init], [updateBalance] and [gate] calls
    whose clock readings never decrease, the stored last update time
    never decreases from one call to the next; it does not decrease at
    the first call either when the first reading is not before the time
    the object held. *)
Theorem lastTime_nondecreasing :
  forall (cs : list (Q * call)) (s : RateLimiter),
    (nondecreasing (map fst cs) ->
     nondecreasing (lastTimes (run cs s))) /\
    (nondecreasing (_lastTime s :: map fst cs) ->
     nondecreasing (_lastTime s :: lastTimes (run cs s))).
Proof.
  intros cs s. rewrite run_lastTimes. split; intro H; exact H.
Qed.

(** ** Instances and counterexamples *)

(** The debit at an admitted call and at a refused call. *)
Lemma gate_debit_always_witness :
  (result (gate 1 scenario_limit 30) (mkRateLimiter 0 (-50)) = true /\
   _balance (after (gate 1 scenario_limit 30) (mkRateLimiter 0 (-50))) =
     Qmax (minBalance scenario_limit)
          (result (updateBalance 1 scenario_limit) (mkRateLimiter 0 (-50)) - 30)) /\
  (result (gate 0 scenario_limit 50) zeroed = false /\
   _balance (after (gate 0 scenario_limit 50) zeroed) =
     Qmax (minBalance scenario_limit)
          (result (updateBalance 0 scenario_limit) zeroed - 50)).
Proof.
  split; (split; [reflexivity|]).
  - apply (gate_debit_always 1 scenario_limit 30 (mkRateLimiter 0 (-50)) true).
    reflexivity.
  - apply (gate_debit_always 0 scenario_limit 50 zeroed false).
    reflexivity.
Defined.

(** One second of accrual at 100 bytes per second from a balance of -50,
    against twenty-one seconds. *)
Lemma updateBalance_accrual_witness :
  (0 <= 1 - _lastTime (mkRateLimiter 0 (-50)) /\
   0 <= bytesPerSecond scenario_limit /\
   _balance (mkRateLimiter 0 (-50)) <= maxBalance scenario_limit /\
   1 <= 21) /\
  (_balance (mkRateLimiter 0 (-50))
     <= _balance (after (updateBalance 1 scenario_limit)
                    (mkRateLimiter 0 (-50))) /\
   _balance (after (updateBalance 1 scenario_limit) (mkRateLimiter 0 (-50)))
     <= maxBalance scenario_limit) /\
  _balance (after (updateBalance 1 scenario_limit) (mkRateLimiter 0 (-50)))
    <= _balance (after (updateBalance 21 scenario_limit)
                   (mkRateLimiter 0 (-50))).
Proof.
  split; [repeat split; qcompute|].
  destruct (updateBalance_accrual 1 scenario_limit (mkRateLimiter 0 (-50)))
    as (_ & _ & _ & Hgrow).
  destruct Hgrow as [Hkeep Hlater]; [qcompute | qcompute |].
  split; [apply Hkeep; qcompute | apply Hlater; qcompute].
Defined.

Module Binary64Runs.

Import PrimFloat Binary64.
Local Open Scope float_scope.

(** On binary64 the worked scenarios run as on the rationals: refused
    with -50 left, admitted with 20 left, admitted with 1 left. *)
Example scenarios_on_binary64 :
  gate 0 scenario_limit 50 (snd (init 0 0 (mkRateLimiter 0 0)))
    = (false, mkRateLimiter 0 (-50)) /\
  gate 1 scenario_limit 30 (mkRateLimiter 0 (-50))
    = (true, mkRateLimiter 1 20) /\
  gate 21 scenario_limit 999 (mkRateLimiter 1 20)
    = (true, mkRateLimiter 21 1).
Proof. repeat split; vm_compute; reflexivity. Qed.

(** Where binary64 parts from the rationals: on a balance of [2^53 + 2]
    a second of accrual at one byte per second is rounded up to
    [2^53 + 4], so [gate] admits [2^53 + 4] bytes and leaves 0. *)
Example gate_rounds_up :
  gate 1 slow_limit 9007199254740996 huge2 = (true, mkRateLimiter 1 0).
Proof. vm_compute. reflexivity. Qed.

(** C4, as stated, fails in the binary64 arithmetic of the code: under
    [Limit{1, 1e17, -500}], on a balance of [2^53] last updated at 0,
    [updateBalance] at clock reading 1 has [dt = 1 >= 0] and stores
    [fmin(1e17, 2^53 + 1 * 1)], which is [2^53] again, since [2^53 + 1]
    is not a binary64 number and rounds to [2^53]: the balance grows by
    0, while [min(r * dt, M - balance_before)] is 1. *)
Lemma updateBalance_growth_rounds :
  (0 <=? 1 - _lastTime huge) = true /\
  updateBalance 1 slow_limit huge
    = (_balance huge, mkRateLimiter 1 (_balance huge)) /\
  (fmin (bytesPerSecond slow_limit * (1 - _lastTime huge))
        (maxBalance slow_limit - _balance huge) =? 1) = true /\
  (_balance (snd (updateBalance 1 slow_limit huge)) - _balance huge
   =? fmin (bytesPerSecond slow_limit * (1 - _lastTime huge))
           (maxBalance slow_limit - _balance huge)) = false.
Proof.
  repeat split; vm_compute; reflexivity.
Qed.

End Binary64Runs.

(** A balance of -900 seeded by [init], then [gate(limit, 0)] at once. *)
Lemma gate_establishes_floor_witness :
  result (updateBalance 5 scenario_limit) (after (init 5 (-900)) zeroed)
    < minBalance scenario_limit /\
  _balance (after (gate 5 scenario_limit 0) (after (init 5 (-900)) zeroed))
    = minBalance scenario_limit.
Proof.
  split; [qcompute|].
  destruct (gate_establishes_floor 5 scenario_limit
              (after (init 5 (-900)) zeroed)) as [_ Hraise].
  apply Hraise. qcompute.
Defined.


(** [gate(limit, 5)] under [Limit{100, 10, 20}] from a balance of 0. *)
Lemma gate_inverted_limit_witness :
  maxBalance inverted_limit <= minBalance inverted_limit /\
  minBalance inverted_limit
    <= _balance (after (gate 0 inverted_limit 5) zeroed) /\
  maxBalance inverted_limit
    < _balance (after (gate 0 inverted_limit 5) zeroed) /\
  _balance (after (gate 0 inverted_limit 5) zeroed) = minBalance inverted_limit.
Proof.
  split; [qcompute|].
  destruct (gate_inverted_limit 0 inverted_limit 5 zeroed)
    as (Hfloor & Habove & Hpin); [qcompute|].
  split; [exact Hfloor|]. split.
  - apply Habove. qcompute.
  - apply Hpin. qcompute.
Defined.

(** C6, as stated, fails: with [Limit{100, 10, 20}], whose ceiling is
    below its floor, [gate(limit, 5)] on a balance of 0 leaves the
    balance at 20, above [maxBalance = 10].  (Every number involved is a
    small integer, which a [double] holds exactly.) *)
Lemma gate_inverted_limit_exceeds_max :
  maxBalance inverted_limit <= minBalance inverted_limit /\
  gate 0 inverted_limit 5 zeroed = (false, mkRateLimiter 0 20) /\
  ~ (_balance (after (gate 0 inverted_limit 5) zeroed)
       <= maxBalance inverted_limit).
Proof.
  split; [qcompute|]. split; [reflexivity|]. qcompute.
Qed.

(** The worked scenarios, call after call. *)
Lemma balance_bounds_in_range_witness :
  (0 <= 100 /\ -500 <= 0 /\ 0 <= 1000) /\
  Forall (fun nc => call_in_range scenario_limit (snd nc)) scenario_calls /\
  Forall (fun b => -500 <= b /\ b <= 1000)
         (balances (run scenario_calls zeroed)).
Proof.
  assert (Hin : Forall (fun nc => call_in_range scenario_limit (snd nc))
                       scenario_calls).
  { repeat constructor; qcompute. }
  split; [repeat split; qcompute|]. split; [exact Hin|].
  apply (balance_bounds_in_range 100 1000 (-500) scenario_calls zeroed);
    [qcompute | qcompute | qcompute | exact Hin].
Defined.

(** C1, as stated, fails on each side at a call the claim allows, under
    [Limit{100, 1000, -500}]: [init(2000)] leaves the balance at 2000,
    above [M]; [init(-2000)] leaves it at -2000, below [m]; and
    [gate(limit, -1)] on a full balance leaves it at 1001, above [M].
    (Every number involved is a small integer, which a [double] holds
    exactly.) *)
Lemma balance_bounds_broken :
  (0 <= bytesPerSecond scenario_limit /\
   minBalance scenario_limit <= 0 /\ 0 <= maxBalance scenario_limit) /\
  ~ Forall (fun b => minBalance scenario_limit <= b /\
                     b <= maxBalance scenario_limit)
           (balances (run [(0, Init 2000)] zeroed)) /\
  ~ Forall (fun b => minBalance scenario_limit <= b /\
                     b <= maxBalance scenario_limit)
           (balances (run [(0, Init (-2000))] zeroed)) /\
  ~ Forall (fun b => minBalance scenario_limit <= b /\
                     b <= maxBalance scenario_limit)
           (balances (run [(0, Init 1000); (0, Gate scenario_limit (-1))]
                          zeroed)).
Proof.
  split; [repeat split; qcompute|].
  split; [|split]; intro H.
  - apply Forall_inv in H. destruct H as [_ H]. revert H. qcompute.
  - apply Forall_inv in H. destruct H as [H _]. revert H. qcompute.
  - apply Forall_inv_tail, Forall_inv in H. destruct H as [_ H].
    revert H. qcompute.
Qed.

(** Three calls in a row from a full balance. *)
Lemma tight_loop_pins_floor_witness :
  _balance (mkRateLimiter 7 1000) <= 1000 /\
  Forall (fun r => fst r = VBool false /\ _balance (snd r) = -500)
         (run (repeat (7, Gate scenario_limit 10000) 3) (mkRateLimiter 7 1000)).
Proof.
  split; [qcompute|].
  apply (tight_loop_pins_floor 3 7 (mkRateLimiter 7 1000)). qcompute.
Defined.

(** The worked scenarios with a bare refresh, from an object whose clock
    started at 0. *)
Lemma lastTime_nondecreasing_witness :
  nondecreasing (_lastTime zeroed :: map fst mixed_calls) /\
  nondecreasing (lastTimes (run mixed_calls zeroed)) /\
  nondecreasing (_lastTime zeroed :: lastTimes (run mixed_calls zeroed)).
Proof.
  assert (Hclk : nondecreasing (_lastTime zeroed :: map fst mixed_calls)).
  { cbn. repeat split; qcompute. }
  split; [exact Hclk|].
  destruct (lastTime_nondecreasing mixed_calls zeroed) as [Hcalls Hall].
  split; [apply Hcalls; apply Hclk | apply Hall; exact Hclk].
Defined.

(** ** Refreshing: accrual, the ceiling and the clock *)

Lemma accrual_nonneg (r t1 t2 : Q) : 0 <= r -> t1 <= t2 -> 0 <= r * (t2 - t1).
Proof. intros Hr Ht. apply Qmult_le_0_compat; lra. Qed.


(** X1. With a rate that is not negative and a clock that has not gone
    back, [updateBalance] never lowers a balance that is within the
    ceiling, and brings a balance at or above the ceiling (an oversized
    preload, a credit) down to exactly the ceiling. *)
Theorem updateBalance_never_lowers :
  forall (now : Q) (lim : Limit) (s : RateLimiter),
    0 <= bytesPerSecond lim ->
    _lastTime s <= now ->
    (_balance s <= maxBalance lim ->
     _balance s <= result (updateBalance now lim) s) /\
    (maxBalance lim <= _balance s ->
     result (updateBalance now lim) s == maxBalance lim).
Proof.
  intros now lim s Hr Ht.
  pose proof (accrual_nonneg _ _ _ Hr Ht) as Ha. cbn.
  set (a := bytesPerSecond lim * (now - _lastTime s)) in *.
  destruct (Q.min_spec (maxBalance lim) (_balance s + a)) as [[H E]|[H E]];
    split; intro Hb; rewrite E; lra.
Qed.

(** X2. A second [updateBalance] at the same clock reading changes
    nothing: it leaves the last update time and the balance that the
    first one left, and returns the balance that the first one
    returned. *)
Theorem updateBalance_idempotent :
  forall (t : Q) (lim : Limit) (s : RateLimiter),
    let s1 := after (updateBalance t lim) s in
    _lastTime (after (updateBalance t lim) s1) = _lastTime s1 /\
    _balance (after (updateBalance t lim) s1) == _balance s1 /\
    result (updateBalance t lim) s1 == result (updateBalance t lim) s.
Proof.
  intros t lim s s1.
  assert (E : result (updateBalance t lim) s1 == result (updateBalance t lim) s).
  { pose proof (updateBalance_le_max t lim s) as Hu.
    subst s1. cbn in *.
    set (ub := Qmin (maxBalance lim)
                 (_balance s + bytesPerSecond lim * (t - _lastTime s))) in *.
    assert (Hz : ub + bytesPerSecond lim * (t - t) == ub) by ring.
    rewrite Hz. apply Q.min_r. exact Hu. }
  split; [reflexivity|]. split; [|exact E].
  rewrite updateBalance_balance. subst s1.
  rewrite updateBalance_balance. exact E.
Qed.


(** ** Gating: what is admitted and what it costs *)

Lemma gate_true_iff (now : Q) (lim : Limit) (bytes : Q) (s : RateLimiter) :
  result (gate now lim bytes) s = true <->
  bytes <= maxBalance lim /\
  bytes <= _balance s + bytesPerSecond lim * (now - _lastTime s).
Proof.
  unfold result. rewrite gate_eq. cbn [fst]. rewrite geb_true_iff.
  cbn. apply Q.min_glb_iff.
Qed.

(** X4. [gate] never admits more than the ceiling: a transfer larger
    than [lim.maxBalance] is refused from every state at every clock
    reading, so every admitted transfer has [bytes <= lim.maxBalance]. *)
Theorem gate_refuses_above_ceiling :
  forall (now : Q) (lim : Limit) (bytes : Q) (s : RateLimiter),
    (maxBalance lim < bytes -> result (gate now lim bytes) s = false) /\
    (result (gate now lim bytes) s = true -> bytes <= maxBalance lim).
Proof.
  intros now lim bytes s.
  assert (Hadm : result (gate now lim bytes) s = true ->
                 bytes <= maxBalance lim).
  { intro Ht. apply gate_true_iff in Ht. apply Ht. }
  split; [|exact Hadm].
  intro Hbig. apply not_true_is_false. intro Ht. apply Hadm in Ht. lra.
Qed.


(** X5. With a floor that is not positive, an admitted transfer is
    debited in full and leaves a balance that is not negative, and a
    refused one leaves a balance that is not positive; with a negative
    floor, the balance after a refused transfer is negative, so [gate]
    returned true exactly when it left a balance that is not negative. *)
Theorem gate_verdict_sign :
  forall (now : Q) (lim : Limit) (bytes : Q) (s : RateLimiter),
    minBalance lim <= 0 ->
    let b' := _balance (after (gate now lim bytes) s) in
    (result (gate now lim bytes) s = true ->
     b' == result (updateBalance now lim) s - bytes /\ 0 <= b') /\
    (result (gate now lim bytes) s = false -> b' <= 0) /\
    (minBalance lim < 0 ->
     (result (gate now lim bytes) s = true <-> 0 <= b')).
Proof.
  intros now lim bytes s Hm b'. subst b'.
  unfold result at 1 3 4, after. rewrite gate_eq. cbn [fst snd _balance].
  set (ub := result (updateBalance now lim) s).
  rewrite geb_true_iff.
  destruct (Q.max_spec (minBalance lim) (ub - bytes)) as [[H E]|[H E]];
    rewrite E; (split; [|split]).
  all: try (intro Hv; split; lra).
  all: try (intro Hv; apply geb_false_iff in Hv; lra).
  all: intro Hlt; split; intro Hv; lra.
Qed.

(** ** Runs: the range invariant *)

Lemma nondecreasing_cons (x y : Q) (l : list Q) :
  nondecreasing (x :: y :: l) <-> x <= y /\ nondecreasing (y :: l).
Proof. reflexivity. Qed.

(** One call in use, on an object inside the limit's range and at a
    reading not before its last update time, leaves the object inside
    the range. *)
Lemma step_in_use (lim : Limit) (now : Q) (c : call) (s : RateLimiter) :
  0 <= bytesPerSecond lim ->
  minBalance lim <= maxBalance lim ->
  call_in_use lim c ->
  _lastTime s <= now ->
  minBalance lim <= _balance s ->
  minBalance lim <= _balance (snd (step now c s)) /\
  _balance (snd (step now c s)) <= maxBalance lim.
Proof.
  intros Hr Hc Hu Ht Hb.
  destruct c as [preload | l | l bytes]; cbn [call_in_use] in Hu.
  - exact Hu.
  - subst l. pose proof (accrual_nonneg _ _ _ Hr Ht) as Ha.
    change (_balance (snd (step now (UpdateBalance lim) s)))
      with (result (updateBalance now lim) s).
    split; [|apply updateBalance_le_max].
    cbn. apply Q.min_glb; lra.
  - destruct Hu as [-> Hbytes]. split.
    + apply (gate_ge_min now lim bytes s).
    + apply (gate_le_max now lim bytes s Hc Hbytes).
Qed.

(** X8. Under a limit with a rate that is not negative and a floor not
    above its ceiling, on an object whose balance is at least the floor,
    over every sequence of [init] (preload inside [[m, M]]),
    [updateBalance] and [gate] ([bytes >= 0]) calls whose clock readings
    never go back, the balance after every call is inside [[m, M]]. *)
Theorem balance_bounds_in_use :
  forall (lim : Limit) (cs : list (Q * call)) (s : RateLimiter),
    0 <= bytesPerSecond lim ->
    minBalance lim <= maxBalance lim ->
    minBalance lim <= _balance s ->
    nondecreasing (_lastTime s :: map fst cs) ->
    Forall (fun nc => call_in_use lim (snd nc)) cs ->
    Forall (fun b => minBalance lim <= b /\ b <= maxBalance lim)
           (balances (run cs s)).
Proof.
  intros lim cs s Hr Hc Hb Hclk Hcs. revert s Hb Hclk.
  induction Hcs as [|[now c] cs Hu _ IH]; intros s Hb Hclk;
    cbn [run balances map].
  - constructor.
  - cbn [map fst] in Hclk. apply nondecreasing_cons in Hclk.
    destruct Hclk as [Ht Hclk]. cbn [snd] in Hu.
    pose proof (step_in_use lim now c s Hr Hc Hu Ht Hb) as Hstep.
    constructor; [exact Hstep|].
    apply IH; [apply Hstep | rewrite step_lastTime; exact Hclk].
Qed.

(** ** Instances of the further properties *)

(** A second of accrual from a debt of 50, and an oversized preload of
    2000 clamped down. *)
Lemma updateBalance_never_lowers_witness :
  (0 <= bytesPerSecond scenario_limit /\
   _lastTime (mkRateLimiter 0 (-50)) <= 1 /\
   _balance (mkRateLimiter 0 (-50)) <= maxBalance scenario_limit /\
   _balance (mkRateLimiter 0 (-50))
     <= result (updateBalance 1 scenario_limit) (mkRateLimiter 0 (-50))) /\
  (maxBalance scenario_limit <= _balance (mkRateLimiter 0 2000) /\
   result (updateBalance 1 scenario_limit) (mkRateLimiter 0 2000)
     == maxBalance scenario_limit).
Proof.
  split.
  - do 3 (split; [qcompute|]).
    destruct (updateBalance_never_lowers 1 scenario_limit
                (mkRateLimiter 0 (-50))) as [Hlow _]; [qcompute | qcompute |].
    apply Hlow. qcompute.
  - split; [qcompute|].
    destruct (updateBalance_never_lowers 1 scenario_limit
                (mkRateLimiter 0 2000)) as [_ Hclamp]; [qcompute | qcompute |].
    apply Hclamp. qcompute.
Defined.


(** A transfer of 10000 against a ceiling of 1000, and an admitted
    transfer of 30. *)
Lemma gate_refuses_above_ceiling_witness :
  (maxBalance scenario_limit < 10000 /\
   result (gate 0 scenario_limit 10000) (mkRateLimiter 0 1000) = false) /\
  (result (gate 1 scenario_limit 30) (mkRateLimiter 0 (-50)) = true /\
   30 <= maxBalance scenario_limit).
Proof.
  split.
  - split; [qcompute|].
    destruct (gate_refuses_above_ceiling 0 scenario_limit 10000
                (mkRateLimiter 0 1000)) as [Hbig _].
    apply Hbig. qcompute.
  - split; [reflexivity|].
    destruct (gate_refuses_above_ceiling 1 scenario_limit 30
                (mkRateLimiter 0 (-50))) as [_ Hadm].
    apply Hadm. reflexivity.
Defined.

(** An admitted transfer of 30 from a refreshed balance of 50. *)
Lemma gate_verdict_sign_witness :
  minBalance scenario_limit <= 0 /\
  result (gate 1 scenario_limit 30) (mkRateLimiter 0 (-50)) = true /\
  _balance (after (gate 1 scenario_limit 30) (mkRateLimiter 0 (-50)))
    == result (updateBalance 1 scenario_limit) (mkRateLimiter 0 (-50)) - 30 /\
  0 <= _balance (after (gate 1 scenario_limit 30) (mkRateLimiter 0 (-50))).
Proof.
  split; [qcompute|]. split; [reflexivity|].
  destruct (gate_verdict_sign 1 scenario_limit 30 (mkRateLimiter 0 (-50)))
    as (Hadm & _ & _); [qcompute|].
  apply Hadm. reflexivity.
Defined.


(** The worked scenarios with a bare refresh. *)
Lemma balance_bounds_in_use_witness :
  0 <= bytesPerSecond scenario_limit /\
  minBalance scenario_limit <= maxBalance scenario_limit /\
  minBalance scenario_limit <= _balance zeroed /\
  nondecreasing (_lastTime zeroed :: map fst mixed_calls) /\
  Forall (fun nc => call_in_use scenario_limit (snd nc)) mixed_calls /\
  Forall (fun b => minBalance scenario_limit <= b /\
                   b <= maxBalance scenario_limit)
         (balances (run mixed_calls zeroed)).
Proof.
  assert (Hclk : nondecreasing (_lastTime zeroed :: map fst mixed_calls)).
  { cbn. repeat split; qcompute. }
  assert (Hin : Forall (fun nc => call_in_use scenario_limit (snd nc))
                       mixed_calls).
  { repeat constructor; qcompute. }
  do 3 (split; [qcompute|]). split; [exact Hclk|]. split; [exact Hin|].
  apply (balance_bounds_in_use scenario_limit mixed_calls zeroed);
    [qcompute | qcompute | qcompute | exact Hclk | exact Hin].
Defined.
